(** * AP / sensor-hub clock synchronisation

    A shallow embedding of [drivers/misc/moto-sensorhub/motosh_time.c]:
    [motosh_time_sync], [motosh_time_recover] and [motosh_time_drift_comp],
    all three working on the file-static [motosh_realtime_delta].

    C integers are carried as [Z]; every operation of a fixed-width type
    writes its reduction out ([s64], [u64], [s32]).  The kernel is built
    with [-fno-strict-overflow], so signed arithmetic is two's complement
    wrap-around. *)

From Stdlib Require Import ZArith List Bool Lia String.
From Stdlib Require Import Strings.Byte.
Import ListNotations.
Local Open Scope Z_scope.

(** ** Fixed-width integers *)

Module Fixed.

(** The value of [x] converted to an unsigned [w]-bit type. *)
Definition to_unsigned (w x : Z) : Z := x mod 2 ^ w.

(** The value of [x] converted to a signed [w]-bit type. *)
Definition to_signed (w x : Z) : Z :=
  (x + 2 ^ (w - 1)) mod 2 ^ w - 2 ^ (w - 1).

End Fixed.

Definition u64 : Z -> Z := Fixed.to_unsigned 64.
Definition s64 : Z -> Z := Fixed.to_signed 64.
Definition s32 : Z -> Z := Fixed.to_signed 32.

Definition INT64_MIN : Z := - 2 ^ 63.
Definition INT64_MAX : Z := 2 ^ 63 - 1.
Definition INT32_MIN : Z := - 2 ^ 31.
Definition INT32_MAX : Z := 2 ^ 31 - 1.

Definition is_int64 (x : Z) : Prop := INT64_MIN <= x <= INT64_MAX.
Definition is_int32 (x : Z) : Prop := INT32_MIN <= x <= INT32_MAX.

(** [int64_t] and [int32_t] arithmetic. *)
Definition add64 (a b : Z) : Z := s64 (a + b).
Definition sub64 (a b : Z) : Z := s64 (a - b).
Definition mul64 (a b : Z) : Z := s64 (a * b).
Definition sub32 (a b : Z) : Z := s32 (a - b).
Definition mul32 (a b : Z) : Z := s32 (a * b).

(** [div64_s64]: signed 64-bit division, rounding towards zero. *)
Definition div64_s64 (dividend divisor : Z) : Z := Z.quot dividend divisor.

(** ** Constants of the file *)

Definition MAX_DRIFT_LATENCY : Z := 100000000.  (* 100 ms in ns *)
Definition MIN_DRIFT_LATENCY : Z := 200000.     (*  .2 ms in ns *)
Definition DRIFT_NUDGE : Z := 50000.            (* .05 ms *)

(** ** The driver's state and what it does to the outside *)

(** The register read by [motosh_time_sync]; its number is declared in
    [linux/motosh.h] and plays no part here. *)
Inductive hub_command : Set := ELAPSED_RT.

Inductive event : Type :=
| SpinLockInit
| SpinLockIrqsave
| SpinUnlockIrqrestore
| GetMonotonicBoottime
| GpioSetValue (level : Z)
| I2cWriteRead (cmd : hub_command) (wlen rlen : Z)
| DevErr (msg : string)
| DevDbg (msg : string) (args : list Z).

(** [motosh_realtime_delta] is the only variable of the file that the three
    functions share; [trace] records, oldest first, the calls they make to
    the rest of the kernel. *)
Record state : Type := mkState {
  motosh_realtime_delta : Z;
  trace : list event
}.

(** A computation of the driver: it reads and writes the state. *)
Definition M (A : Type) : Type := state -> A * state.

Definition ret {A : Type} (a : A) : M A := fun st => (a, st).

Definition bind {A B : Type} (c : M A) (k : A -> M B) : M B :=
  fun st => let (a, st') := c st in k a st'.

Notation "x <- c ;; k" := (bind c (fun x => k))
  (at level 61, c at next level, right associativity).
Notation "c ;;; k" := (bind c (fun _ => k))
  (at level 61, right associativity).

Definition read_delta : M Z := fun st => (motosh_realtime_delta st, st).

Definition write_delta (d : Z) : M unit :=
  fun st => (tt, mkState d (trace st)).

Definition emit (e : event) : M unit :=
  fun st => (tt, mkState (motosh_realtime_delta st) (trace st ++ [e])).

Definition when (b : bool) (c : M unit) : M unit := if b then c else ret tt.

(** ** [motosh_time_sync] *)

Record timespec : Type := mkTimespec { tv_sec : Z; tv_nsec : Z }.

(** What [motosh_i2c_write_read] hands back: its return value and the
    content of [readbuff] after the call.  [readbuff] is an uninitialised
    array of the caller's frame, so after a failed transfer its content is
    whatever this record says. *)
Record i2c_result : Type := mkI2c { err : Z; readbuff : list byte }.

(** [readbuff[i]], an [unsigned char]. *)
Definition rb (buf : list byte) (i : nat) : Z :=
  Z.of_N (Byte.to_N (nth i buf x00)).

(** [ts.tv_sec*1000000000LL + ts.tv_nsec] *)
Definition ap_time (ts : timespec) : Z :=
  add64 (mul64 (tv_sec ts) 1000000000) (tv_nsec ts).

(** The [uint64_t] expression assigned to [hub_time], before the conversion
    to [int64_t]. *)
Definition hub_time_u64 (buf : list byte) : Z :=
  u64 ((Z.lor (Z.lor (Z.lor (Z.lor (Z.lor (Z.lor (Z.lor
          (u64 (Z.shiftl (rb buf 0) 56))
          (u64 (Z.shiftl (rb buf 1) 48)))
          (u64 (Z.shiftl (rb buf 2) 40)))
          (u64 (Z.shiftl (rb buf 3) 32)))
          (u64 (Z.shiftl (rb buf 4) 24)))
          (u64 (Z.shiftl (rb buf 5) 16)))
          (u64 (Z.shiftl (rb buf 6) 8)))
          (rb buf 7)) * 1000).

(** [ts] is what [get_monotonic_boottime] returns and [r] what the I2C
    transfer returns. *)
Definition motosh_time_sync (ts : timespec) (r : i2c_result) : M unit :=
  (* one time init *)
  d0 <- read_delta ;;
  when (d0 =? 0) (emit SpinLockInit) ;;;
  (* ensure line starts low *)
  emit (GpioSetValue 0) ;;;
  (* get AP time and raise wake line to lock in time at hub *)
  emit SpinLockIrqsave ;;;
  emit GetMonotonicBoottime ;;;
  emit (GpioSetValue 1) ;;;
  emit SpinUnlockIrqrestore ;;;
  let ap_time1 := ap_time ts in
  (* read time from hub saved at int *)
  emit (I2cWriteRead ELAPSED_RT 1 8) ;;;
  when (err r <? 0) (emit (DevErr "Unable to read hub time")) ;;;
  (* nanoseconds *)
  let hub_time := s64 (hub_time_u64 (readbuff r)) in
  (* ap time will always be greater than hub time *)
  let delta := sub64 ap_time1 hub_time in
  (* update offset *)
  d1 <- read_delta ;;
  emit (DevDbg "Sync time - sh: %12lld ap: %12lld offs_delta: %12lld"
               [hub_time; ap_time1; sub64 delta d1]) ;;;
  write_delta delta.

(** ** [motosh_time_recover] *)

(** [hubshort *= 16] on an [int32_t]. *)
Definition scale_hubshort (hubshort : Z) : Z := mul32 hubshort 16.

(** [div64_s64((cur_time - motosh_realtime_delta), 1000)], in uS. *)
Definition estimate_us (delta cur_time : Z) : Z :=
  div64_s64 (sub64 cur_time delta) 1000.

(** [short_hubtime_estimate = hubtime_estimate & 0xFFFFFFF], an [int32_t]. *)
Definition short_estimate (hubtime_estimate : Z) : Z :=
  s32 (Z.land hubtime_estimate 0xFFFFFFF).

(** The [if] / [else if] that accounts for a rollover: the new value of
    [hubtime_estimate]. *)
Definition rollover_adjust
    (hubtime_estimate short_hubtime_estimate hubshort : Z) : M Z :=
  if sub32 short_hubtime_estimate hubshort >? 130000000 then
    (* hub time likely rolled, AP estimate has not, roll estimate forward *)
    emit (DevDbg "roll fwd %X %X" [short_hubtime_estimate; hubshort]) ;;;
    ret (add64 hubtime_estimate 0x010000000)
  else if sub32 hubshort short_hubtime_estimate >? 130000000 then
    (* AP estimate likely rolled, hub time did not, roll estimate back *)
    emit (DevDbg "roll back %X %X" [short_hubtime_estimate; hubshort]) ;;;
    ret (sub64 hubtime_estimate 0x010000000)
  else
    ret hubtime_estimate.

(** [((hubtime_estimate & 0xFFFFFFFFF0000000) | (hubshort & 0xFFFFFFF)) * 1000]:
    the mask is an unsigned 64-bit constant, so the whole expression is
    unsigned 64-bit arithmetic; the assignment to [hubtime] converts it to
    [int64_t]. *)
Definition splice_ns (hubtime_estimate hubshort : Z) : Z :=
  s64 (u64 (Z.lor (Z.land (u64 hubtime_estimate) 0xFFFFFFFFF0000000)
                  (Z.land hubshort 0xFFFFFFF) * 1000)).

Definition motosh_time_recover (hubshort cur_time : Z) : M Z :=
  (* convert back to uSec *)
  let hubshort := scale_hubshort hubshort in
  delta <- read_delta ;;
  let hubtime_estimate := estimate_us delta cur_time in
  let short_hubtime_estimate := short_estimate hubtime_estimate in
  (* Determine if a rollover needs to be accounted for *)
  hubtime_estimate <-
    rollover_adjust hubtime_estimate short_hubtime_estimate hubshort ;;
  (* recover AP time based on 28bit usec from Hub *)
  let hubtime := splice_ns hubtime_estimate hubshort in
  delta' <- read_delta ;;
  ret (add64 hubtime delta').

(** ** [motosh_time_drift_comp]

    [MOTOSH_TIME_DEBUG] is not defined in the file, so the block that counts
    calls and prints is compiled out. *)
Definition motosh_time_drift_comp (rec_hub cur_time : Z) (streaming : bool)
  : M Z :=
  (* offset should be a positve value indicating that the recovered hub
     time is in the past. *)
  let offset := sub64 cur_time rec_hub in
  if streaming && (offset >? MAX_DRIFT_LATENCY) then
    (* increase delta, to reduce offset on next sample *)
    d <- read_delta ;;
    write_delta (add64 d DRIFT_NUDGE) ;;;
    ret 1
  else if offset <? MIN_DRIFT_LATENCY then
    (* reduce delta, to increase offset on next sample *)
    d <- read_delta ;;
    write_delta (sub64 d DRIFT_NUDGE) ;;;
    ret (-1)
  else
    ret 0.

(** Which of the three ways a call takes. *)
Inductive drift_case (rec_hub cur_time : Z) (streaming : bool) (st : state)
  : Prop :=
| DriftUp :
    streaming = true ->
    sub64 cur_time rec_hub > MAX_DRIFT_LATENCY ->
    motosh_time_drift_comp rec_hub cur_time streaming st
    = (1, mkState (add64 (motosh_realtime_delta st) DRIFT_NUDGE) (trace st)) ->
    drift_case rec_hub cur_time streaming st
| DriftDown :
    sub64 cur_time rec_hub < MIN_DRIFT_LATENCY ->
    motosh_time_drift_comp rec_hub cur_time streaming st
    = (-1, mkState (sub64 (motosh_realtime_delta st) DRIFT_NUDGE) (trace st)) ->
    drift_case rec_hub cur_time streaming st
| DriftNone :
    streaming = false \/ sub64 cur_time rec_hub <= MAX_DRIFT_LATENCY ->
    MIN_DRIFT_LATENCY <= sub64 cur_time rec_hub ->
    motosh_time_drift_comp rec_hub cur_time streaming st = (0, st) ->
    drift_case rec_hub cur_time streaming st.

(** [n] calls in a row with the same arguments: the state they leave. *)
Fixpoint drift_comp_repeat (n : nat) (rec_hub cur_time : Z) (streaming : bool)
    (st : state) : state :=
  match n with
  | O => st
  | S n' =>
      drift_comp_repeat n' rec_hub cur_time streaming
        (snd (motosh_time_drift_comp rec_hub cur_time streaming st))
  end.

(** ** The words of the specification, to compare the code with *)

(** The big-endian value of a byte string. *)
Definition be_decode (buf : list byte) : Z :=
  fold_left (fun acc b => acc * 256 + Z.of_N (Byte.to_N b)) buf 0.

(** The span of the 28-bit microsecond counter and the rollover threshold. *)
Definition SPAN_US : Z := 0x10000000.
Definition ROLL_THRESHOLD_US : Z := 130000000.

(** The estimate after the rollover correction, as the specification words
    it: compare the low 28 bits of the estimate with the fragment in
    microseconds, in plain integers. *)
Definition spec_corrected_estimate (estimate estimate_low28 fragment_us : Z)
  : Z :=
  if estimate_low28 - fragment_us >? ROLL_THRESHOLD_US then estimate + SPAN_US
  else if fragment_us - estimate_low28 >? ROLL_THRESHOLD_US
       then estimate - SPAN_US
  else estimate.

(** [(estimate & ~0xFFFFFFF) | (fragment_us & 0xFFFFFFF)], then x 1000, plus
    the offset, in plain integers. *)
Definition spec_reconstruct (estimate fragment_us offset : Z) : Z :=
  Z.lor (Z.land estimate (Z.lnot 0xFFFFFFF)) (Z.land fragment_us 0xFFFFFFF)
    * 1000 + offset.

(** Modelled from the spec: the hub's side of the exchange, which is
    firmware and not in this file.  A timestamp [T] of the host base is
    the hub time [T - offset]; the hub sends the low 28 bits of its
    microsecond counter in 16-microsecond ticks. *)
Definition hub_us (offset T : Z) : Z := (T - offset) / 1000.

Definition hub_fragment (offset T : Z) : Z :=
  Z.shiftr (Z.land (hub_us offset T) 0xFFFFFFF) 4.

(** ** Reading a trace *)

(** Whether [time_sync_lock] is held once the calls of [tr] are made,
    [held] telling whether it was before. *)
Fixpoint lock_held_from (held : bool) (tr : list event) : bool :=
  match tr with
  | [] => held
  | SpinLockIrqsave :: tr' => lock_held_from true tr'
  | SpinUnlockIrqrestore :: tr' => lock_held_from false tr'
  | _ :: tr' => lock_held_from held tr'
  end.

(** The calls of [tr] that are made with [time_sync_lock] held, in order. *)
Fixpoint under_lock_from (held : bool) (tr : list event) : list event :=
  match tr with
  | [] => []
  | SpinLockIrqsave :: tr' => under_lock_from true tr'
  | SpinUnlockIrqrestore :: tr' => under_lock_from false tr'
  | e :: tr' =>
      if held then e :: under_lock_from held tr' else under_lock_from held tr'
  end.

(** The level of the wake line once the calls of [tr] are made. *)
Fixpoint wake_line_from (level : Z) (tr : list event) : Z :=
  match tr with
  | [] => level
  | GpioSetValue l :: tr' => wake_line_from l tr'
  | _ :: tr' => wake_line_from level tr'
  end.

(** How many times [spin_lock_init] is called in [tr]. *)
Fixpoint count_lock_init (tr : list event) : nat :=
  match tr with
  | [] => 0%nat
  | SpinLockInit :: tr' => S (count_lock_init tr')
  | _ :: tr' => count_lock_init tr'
  end.

(** ** Sequences of calls *)

(** The argument of [motosh_time_recover] for a hub counter of [us]
    microseconds: the comments of the source give it as the 28 bits of
    microseconds from the hub in units of 16 microseconds. *)
Definition hubshort_of_us (us : Z) : Z := Z.shiftr (Z.land us 0xFFFFFFF) 4.

(** The arguments of one call of [motosh_time_drift_comp]. *)
Record drift_call : Type := mkDriftCall {
  dc_rec_hub : Z;
  dc_cur_time : Z;
  dc_streaming : bool
}.

(** The calls of a list made one after the other: the values they return
    and the state they leave. *)
Fixpoint drift_comp_seq (calls : list drift_call) (st : state)
  : list Z * state :=
  match calls with
  | [] => ([], st)
  | c :: calls' =>
      let (n, st1) :=
        motosh_time_drift_comp (dc_rec_hub c) (dc_cur_time c)
          (dc_streaming c) st in
      let (ns, st2) := drift_comp_seq calls' st1 in
      (n :: ns, st2)
  end.

Definition sum_Z (l : list Z) : Z := fold_right Z.add 0 l.

(** ** The scenario of the specification, run on the code *)

Definition st0 : state := mkState 0 [].

Definition resp_1s : i2c_result :=
  mkI2c 0 [x00; x00; x00; x00; x00; x0f; x42; x40].

(** A transfer that fails with [-EIO] and leaves zeros in the buffer. *)
Definition failed_read : i2c_result :=
  mkI2c (-5) [x00; x00; x00; x00; x00; x00; x00; x00].

Example scenario_sync :
  motosh_realtime_delta
    (snd (motosh_time_sync (mkTimespec 1 50000000) resp_1s st0)) = 50000000.
Proof. reflexivity. Qed.

Example scenario_recover :
  fst (motosh_time_recover 125000 2051000000 (mkState 50000000 []))
  = 2050000000.
Proof. reflexivity. Qed.

(** ** Fixed-width arithmetic: basic facts *)

Section FixedFacts.

Lemma s64_id (x : Z) : is_int64 x -> s64 x = x.
Proof.
  unfold is_int64, INT64_MIN, INT64_MAX, s64, Fixed.to_signed.
  intros H. rewrite Z.mod_small; lia.
Qed.

Lemma s32_id (x : Z) : is_int32 x -> s32 x = x.
Proof.
  unfold is_int32, INT32_MIN, INT32_MAX, s32, Fixed.to_signed.
  intros H. rewrite Z.mod_small; lia.
Qed.

Lemma s64_range (x : Z) : is_int64 (s64 x).
Proof.
  unfold is_int64, INT64_MIN, INT64_MAX, s64, Fixed.to_signed.
  pose proof (Z.mod_pos_bound (x + 2 ^ (64 - 1)) (2 ^ 64)). lia.
Qed.

Lemma u64_range (x : Z) : 0 <= u64 x < 2 ^ 64.
Proof. unfold u64, Fixed.to_unsigned. apply Z.mod_pos_bound. lia. Qed.

Lemma u64_id (x : Z) : 0 <= x < 2 ^ 64 -> u64 x = x.
Proof. unfold u64, Fixed.to_unsigned. apply Z.mod_small. Qed.

(** Two integers that agree modulo [2^64] are the same [int64_t]. *)
Lemma s64_congr (a b : Z) : a mod 2 ^ 64 = b mod 2 ^ 64 -> s64 a = s64 b.
Proof.
  intros H. unfold s64, Fixed.to_signed.
  rewrite (Z.add_mod a), (Z.add_mod b), H by lia. reflexivity.
Qed.

Lemma s64_shift (a k : Z) : s64 (a + k * 2 ^ 64) = s64 a.
Proof. apply s64_congr. apply Z.mod_add. lia. Qed.

Lemma s64_mod (x : Z) : s64 x mod 2 ^ 64 = x mod 2 ^ 64.
Proof.
  unfold s64, Fixed.to_signed.
  rewrite Zminus_mod, Z.mod_mod, <- Zminus_mod by lia.
  f_equal. lia.
Qed.

Lemma s64_add_l (a b : Z) : s64 (s64 a + b) = s64 (a + b).
Proof.
  apply s64_congr.
  rewrite (Z.add_mod (s64 a)), s64_mod, <- Z.add_mod by lia. reflexivity.
Qed.

Lemma s64_sub_r (a b : Z) : s64 (a - s64 b) = s64 (a - b).
Proof.
  apply s64_congr.
  rewrite (Zminus_mod a (s64 b)), s64_mod, <- Zminus_mod. reflexivity.
Qed.

End FixedFacts.

(** ** Masks, shifts and ors as arithmetic *)

Lemma land_low28 (x : Z) : Z.land x 0xFFFFFFF = x mod 2 ^ 28.
Proof. change 0xFFFFFFF with (Z.ones 28). apply Z.land_ones. lia. Qed.

Lemma land_clear_low28 (x : Z) :
  Z.land x (Z.lnot 0xFFFFFFF) = 2 ^ 28 * (x / 2 ^ 28).
Proof.
  change 0xFFFFFFF with (Z.ones 28).
  rewrite <- Z.ldiff_land, Z.ldiff_ones_r by lia.
  rewrite Z.shiftr_div_pow2, Z.shiftl_mul_pow2 by lia. lia.
Qed.

Lemma land_high36 (x : Z) :
  0 <= x < 2 ^ 64 -> Z.land x 0xFFFFFFFFF0000000 = 2 ^ 28 * (x / 2 ^ 28).
Proof.
  intros Hx.
  change 0xFFFFFFFFF0000000 with (Z.land (Z.ones 64) (Z.lnot 0xFFFFFFF)).
  rewrite Z.land_assoc, Z.land_ones, Z.mod_small by lia.
  apply land_clear_low28.
Qed.

Lemma lor_add_disjoint (k a b : Z) :
  0 <= k -> a mod 2 ^ k = 0 -> 0 <= b < 2 ^ k -> Z.lor a b = a + b.
Proof.
  intros Hk Ha Hb.
  assert (Hand : Z.land a b = 0).
  { apply Z.bits_inj'. intros n Hn.
    rewrite Z.land_spec, Z.bits_0.
    destruct (Z.lt_ge_cases n k) as [Hlt | Hge].
    - rewrite <- (Z.mod_pow2_bits_low a k n), Ha, Z.bits_0 by lia. reflexivity.
    - rewrite <- (Z.mod_small b (2 ^ k)) by lia.
      rewrite Z.mod_pow2_bits_high by lia. apply andb_false_r. }
  rewrite Z.add_nocarry_lxor, Z.lxor_lor by assumption. reflexivity.
Qed.

(** Goals with [/] and [mod] by constants. *)
Ltac divmod := try lia; Z.to_euclidean_division_equations; lia.

(** ** Running the monad *)

Ltac run :=
  cbv beta iota delta [bind ret when emit read_delta write_delta];
  cbn [fst snd motosh_realtime_delta trace].

(** ** [motosh_time_sync] *)

Lemma rb_bound (buf : list byte) (i : nat) : 0 <= rb buf i < 256.
Proof.
  unfold rb. pose proof (Byte.to_N_bounded (nth i buf x00)). lia.
Qed.

(** The shifts and ors of [motosh_time_sync] read the buffer big-endian. *)
Lemma hub_time_u64_decode (buf : list byte) :
  List.length buf = 8%nat -> hub_time_u64 buf = u64 (be_decode buf * 1000).
Proof.
  intros Hlen.
  do 8 (destruct buf as [| ? buf]; [discriminate Hlen |]).
  destruct buf; [| discriminate Hlen].
  unfold hub_time_u64, be_decode. cbn [fold_left].
  repeat match goal with
         | |- context [rb ?l ?i] =>
             let x := fresh "r" in
             let H := fresh "Hr" in
             pose proof (rb_bound l i) as H;
             set (x := rb l i) in *; cbn [nth] in x
         end.
  rewrite !Z.shiftl_mul_pow2 by lia.
  rewrite !(u64_id (_ * 2 ^ _)) by lia.
  rewrite (lor_add_disjoint 56 _ (_ * 2 ^ 48)) by divmod.
  rewrite (lor_add_disjoint 48 _ (_ * 2 ^ 40)) by divmod.
  rewrite (lor_add_disjoint 40 _ (_ * 2 ^ 32)) by divmod.
  rewrite (lor_add_disjoint 32 _ (_ * 2 ^ 24)) by divmod.
  rewrite (lor_add_disjoint 24 _ (_ * 2 ^ 16)) by divmod.
  rewrite (lor_add_disjoint 16 _ (_ * 2 ^ 8)) by divmod.
  rewrite (lor_add_disjoint 8) by divmod.
  repeat match goal with x := _ |- _ => subst x end.
  unfold rb. cbn [nth]. f_equal. lia.
Qed.

(** What [motosh_time_sync] leaves in [motosh_realtime_delta], whatever
    the transfer returned. *)
Lemma sync_delta (ts : timespec) (r : i2c_result) (st : state) :
  motosh_realtime_delta (snd (motosh_time_sync ts r st))
  = sub64 (ap_time ts) (s64 (hub_time_u64 (readbuff r))).
Proof.
  unfold motosh_time_sync. run.
  destruct (motosh_realtime_delta st =? 0), (err r <? 0); reflexivity.
Qed.

(** The value of [err] changes the log and nothing else. *)
Lemma sync_delta_ignores_err (ts : timespec) (e1 e2 : Z) (buf : list byte)
    (st : state) :
  motosh_realtime_delta (snd (motosh_time_sync ts (mkI2c e1 buf) st))
  = motosh_realtime_delta (snd (motosh_time_sync ts (mkI2c e2 buf) st)).
Proof. rewrite !sync_delta. reflexivity. Qed.

Lemma s64_sub_u64 (a x : Z) : s64 (a - s64 (u64 x)) = s64 (a - x).
Proof.
  rewrite s64_sub_r. apply s64_congr.
  rewrite (Zminus_mod a (u64 x)). unfold u64, Fixed.to_unsigned.
  rewrite Z.mod_mod, <- Zminus_mod by lia. reflexivity.
Qed.

(** C3: for every 8-byte response and every sampled host time,
    [motosh_time_sync] stores host_t1 minus (the big-endian decode of the
    response times 1000): the value is reduced to the 64 bits of the
    offset and is that difference itself whenever the difference is an
    [int64_t]; the previous offset and the transfer's return value play no
    part in it. *)
Theorem sync_stores_offset (ts : timespec) (r : i2c_result) (st : state) :
  List.length (readbuff r) = 8%nat ->
  let host_t1 := ap_time ts in
  let decoded := be_decode (readbuff r) in
  let st' := snd (motosh_time_sync ts r st) in
  motosh_realtime_delta st' = s64 (host_t1 - decoded * 1000)
  /\ (is_int64 (host_t1 - decoded * 1000) ->
      motosh_realtime_delta st' = host_t1 - decoded * 1000)
  /\ (forall st2 : state,
      motosh_realtime_delta (snd (motosh_time_sync ts r st2))
      = motosh_realtime_delta st').
Proof.
  intros Hlen host_t1 decoded st'.
  assert (Hd : forall s, motosh_realtime_delta (snd (motosh_time_sync ts r s))
                         = s64 (host_t1 - decoded * 1000)).
  { intros s. rewrite sync_delta, hub_time_u64_decode by exact Hlen.
    unfold sub64. apply s64_sub_u64. }
  repeat split.
  - apply Hd.
  - intros Hfit. subst st'. rewrite Hd. apply s64_id, Hfit.
  - intros st2. subst st'. rewrite !Hd. reflexivity.
Qed.

Lemma sync_stores_offset_witness :
  motosh_realtime_delta
    (snd (motosh_time_sync (mkTimespec 1 50000000) resp_1s st0))
  = 1050000000 - 1000000 * 1000.
Proof.
  destruct (sync_stores_offset (mkTimespec 1 50000000) resp_1s st0 eq_refl)
    as [_ [Hexact _]].
  apply Hexact. vm_compute. split; discriminate.
Defined.

(** The arithmetic is that of 64-bit integers: a counter of eight [0xff]
    bytes times 1000 is [2^64 - 1000], which is [-1000] as an [int64_t], so
    the offset stored is [host_t1 + 1000]. *)
Example sync_wraps_on_large_counter :
  motosh_realtime_delta
    (snd (motosh_time_sync (mkTimespec 1 50000000)
            (mkI2c 0 [xff; xff; xff; xff; xff; xff; xff; xff]) st0))
  = 1050000000 + 1000.
Proof. reflexivity. Qed.

(** C1: a failed transfer is logged, and the offset is overwritten all the
    same.  With the offset at 50,000,000, the clock at 1.05 s and a transfer
    that returns -5 and leaves eight zero bytes in [readbuff], the call logs
    the failure and stores 1,050,000,000. *)
Theorem sync_failure_overwrites_offset :
  let st := mkState 50000000 [] in
  let st' := snd (motosh_time_sync (mkTimespec 1 50000000) failed_read st) in
  In (DevErr "Unable to read hub time") (trace st')
  /\ motosh_realtime_delta st' = 1050000000
  /\ motosh_realtime_delta st' <> motosh_realtime_delta st.
Proof.
  cbv zeta. split; [| split].
  - vm_compute. repeat ((left; reflexivity) || right).
  - reflexivity.
  - vm_compute. discriminate.
Qed.

(** ** [motosh_time_recover] *)

Lemma scale_hubshort_small (h : Z) :
  - 2 ^ 27 <= h < 2 ^ 27 -> scale_hubshort h = h * 16.
Proof.
  intros Hh. unfold scale_hubshort, mul32. apply s32_id.
  unfold is_int32, INT32_MIN, INT32_MAX. lia.
Qed.

(** C7: over the 28-bit range, [hubshort *= 16] is the product exactly when
    the fragment is below [2^27]; from [2^27] on the 32-bit product wraps
    and is [2^32] less.  The three bytes that the source documents are
    below [2^24]. *)
Theorem scale_hubshort_exact_range (fragment : Z) :
  0 <= fragment < 2 ^ 28 ->
  (scale_hubshort fragment = fragment * 16 <-> fragment < 2 ^ 27)
  /\ (2 ^ 27 <= fragment -> scale_hubshort fragment = fragment * 16 - 2 ^ 32).
Proof.
  intros Hf.
  assert (Hhigh : 2 ^ 27 <= fragment ->
                  scale_hubshort fragment = fragment * 16 - 2 ^ 32).
  { intros Hge. unfold scale_hubshort, mul32, s32, Fixed.to_signed.
    replace (fragment * 16 + 2 ^ (32 - 1))
      with (fragment * 16 - 2 ^ 31 + 1 * 2 ^ 32) by lia.
    rewrite Z.mod_add, Z.mod_small by lia. lia. }
  split; [split |]; [| | exact Hhigh].
  - intros Heq. destruct (Z.lt_ge_cases fragment (2 ^ 27)) as [Hlt | Hge].
    + exact Hlt.
    + rewrite (Hhigh Hge) in Heq. lia.
  - intros Hlt. apply scale_hubshort_small. lia.
Qed.

Lemma scale_hubshort_exact_range_witness :
  scale_hubshort 125000 = 125000 * 16.
Proof.
  apply (scale_hubshort_exact_range 125000); lia.
Defined.

(** The claim of an exact product over all of the 28-bit range fails at
    [2^27]: [2^27 * 16] is [2^31], which is not an [int32_t]. *)
Lemma scale_hubshort_overflow :
  0 <= 134217728 < 2 ^ 28
  /\ scale_hubshort 134217728 = -2147483648
  /\ scale_hubshort 134217728 <> 134217728 * 16.
Proof.
  split; [lia | split; [reflexivity | vm_compute; discriminate]].
Qed.

Lemma rollover_adjust_delta (E e h : Z) (st : state) :
  motosh_realtime_delta (snd (rollover_adjust E e h st))
  = motosh_realtime_delta st.
Proof.
  unfold rollover_adjust.
  destruct (sub32 e h >? 130000000); [reflexivity |].
  destruct (sub32 h e >? 130000000); reflexivity.
Qed.

Lemma rollover_adjust_value (E e h : Z) (st : state) :
  fst (rollover_adjust E e h st)
  = if sub32 e h >? 130000000 then add64 E 0x10000000
    else if sub32 h e >? 130000000 then sub64 E 0x10000000
    else E.
Proof.
  unfold rollover_adjust.
  destruct (sub32 e h >? 130000000); [reflexivity |].
  destruct (sub32 h e >? 130000000); reflexivity.
Qed.

(** The value that [motosh_time_recover] returns, in the steps of its
    body. *)
Lemma recover_value (hubshort cur_time : Z) (st : state) :
  let delta := motosh_realtime_delta st in
  let fragment_us := scale_hubshort hubshort in
  let estimate := estimate_us delta cur_time in
  let corrected :=
    fst (rollover_adjust estimate (short_estimate estimate) fragment_us st) in
  fst (motosh_time_recover hubshort cur_time st)
  = add64 (splice_ns corrected fragment_us) delta.
Proof.
  cbv zeta. unfold motosh_time_recover. run.
  pose proof (rollover_adjust_delta
                (estimate_us (motosh_realtime_delta st) cur_time)
                (short_estimate (estimate_us (motosh_realtime_delta st) cur_time))
                (scale_hubshort hubshort) st) as Hd.
  destruct (rollover_adjust _ _ _ st) as [Ec st1].
  cbn [fst snd] in *. rewrite Hd. reflexivity.
Qed.

Lemma recover_delta (hubshort cur_time : Z) (st : state) :
  motosh_realtime_delta (snd (motosh_time_recover hubshort cur_time st))
  = motosh_realtime_delta st.
Proof.
  unfold motosh_time_recover. run.
  pose proof (rollover_adjust_delta
                (estimate_us (motosh_realtime_delta st) cur_time)
                (short_estimate (estimate_us (motosh_realtime_delta st) cur_time))
                (scale_hubshort hubshort) st) as Hd.
  destruct (rollover_adjust _ _ _ st) as [Ec st1].
  cbn [fst snd] in *. exact Hd.
Qed.

(** The estimate is a 64-bit value divided by 1000: a span more or less
    does not take it out of [int64_t]. *)
Lemma estimate_us_bound (delta cur_time : Z) :
  - 2 ^ 60 <= estimate_us delta cur_time <= 2 ^ 60.
Proof.
  unfold estimate_us, div64_s64, sub64.
  pose proof (s64_range (cur_time - delta)) as Hr.
  unfold is_int64, INT64_MIN, INT64_MAX in Hr.
  Z.to_euclidean_division_equations. lia.
Qed.

Lemma short_estimate_mod (E : Z) : short_estimate E = E mod 2 ^ 28.
Proof.
  unfold short_estimate. rewrite land_low28. apply s32_id.
  unfold is_int32, INT32_MIN, INT32_MAX.
  pose proof (Z.mod_pos_bound E (2 ^ 28)). lia.
Qed.

(** The [if] / [else if] on plain integers, when the fragment in
    microseconds and the differences are [int32_t] values. *)
Lemma rollover_adjust_spec (delta cur_time fragment_us : Z) (st : state) :
  0 <= fragment_us < 2 ^ 31 ->
  let estimate := estimate_us delta cur_time in
  fst (rollover_adjust estimate (short_estimate estimate) fragment_us st)
  = spec_corrected_estimate estimate (Z.land estimate 0xFFFFFFF) fragment_us.
Proof.
  intros Hf estimate. rewrite rollover_adjust_value.
  pose proof (estimate_us_bound delta cur_time) as HE. fold estimate in HE.
  rewrite short_estimate_mod, land_low28.
  pose proof (Z.mod_pos_bound estimate (2 ^ 28)) as He.
  unfold spec_corrected_estimate, ROLL_THRESHOLD_US, SPAN_US, sub32.
  rewrite !s32_id by (unfold is_int32, INT32_MIN, INT32_MAX; lia).
  unfold add64, sub64.
  rewrite !s64_id by (unfold is_int64, INT64_MIN, INT64_MAX; lia).
  reflexivity.
Qed.

(** The same [if] / [else if] for every argument, in the [int32_t]
    arithmetic of the comparisons. *)
Lemma rollover_adjust_int32 (delta cur_time fragment_us : Z) (st : state) :
  let estimate := estimate_us delta cur_time in
  let low28 := short_estimate estimate in
  let corrected := fst (rollover_adjust estimate low28 fragment_us st) in
  (corrected = estimate + 0x10000000
   <-> sub32 low28 fragment_us > 130000000)
  /\ (corrected = estimate - 0x10000000
      <-> sub32 low28 fragment_us <= 130000000
          /\ sub32 fragment_us low28 > 130000000)
  /\ (corrected = estimate
      <-> sub32 low28 fragment_us <= 130000000
          /\ sub32 fragment_us low28 <= 130000000).
Proof.
  intros estimate low28 corrected. subst corrected.
  rewrite rollover_adjust_value.
  pose proof (estimate_us_bound delta cur_time) as HE. fold estimate in HE.
  unfold add64, sub64.
  rewrite !s64_id by (unfold is_int64, INT64_MIN, INT64_MAX; lia).
  destruct (Z.gtb_spec (sub32 low28 fragment_us) 130000000);
    destruct (Z.gtb_spec (sub32 fragment_us low28) 130000000); lia.
Qed.

(** From [2^27] on the scaled fragment is negative and the differences
    leave [int32_t]: with the fragment [2^27] and an estimate whose low 28
    bits are 0 the difference is [2^31] and neither branch is taken. *)
Example rollover_missed_at_2p27 :
  scale_hubshort 134217728 = -2147483648
  /\ short_estimate (estimate_us 0 0) = 0
  /\ fst (rollover_adjust (estimate_us 0 0) (short_estimate (estimate_us 0 0))
            (scale_hubshort 134217728) st0)
     = estimate_us 0 0.
Proof. repeat split. Qed.

(** C9: [motosh_time_recover] reads [motosh_realtime_delta] and leaves it as
    it was. *)
Theorem recover_keeps_offset (hubshort cur_time : Z) (st : state) :
  motosh_realtime_delta (snd (motosh_time_recover hubshort cur_time st))
  = motosh_realtime_delta st.
Proof. apply recover_delta. Qed.

(** ** The splice against the formula of the specification *)

Lemma spec_reconstruct_arith (c f d : Z) :
  spec_reconstruct c f d = (2 ^ 28 * (c / 2 ^ 28) + f mod 2 ^ 28) * 1000 + d.
Proof.
  unfold spec_reconstruct.
  rewrite land_clear_low28, land_low28.
  rewrite (lor_add_disjoint 28) by divmod.
  reflexivity.
Qed.

Lemma s64_add_u64 (x d : Z) : s64 (s64 (u64 x) + d) = s64 (x + d).
Proof.
  rewrite s64_add_l. apply s64_congr.
  unfold u64, Fixed.to_unsigned. apply Z.add_mod_idemp_l. lia.
Qed.

(** The unsigned 64-bit mask, or and multiplication of the code give, once
    the offset is added in 64 bits, the formula of the specification
    reduced to 64 bits. *)
Lemma splice_reconstruct (c f d : Z) :
  add64 (splice_ns c f) d = s64 (spec_reconstruct c f d).
Proof.
  unfold add64, splice_ns. rewrite s64_add_u64, spec_reconstruct_arith.
  rewrite land_high36 by apply u64_range.
  rewrite land_low28.
  rewrite (lor_add_disjoint 28) by divmod.
  assert (Hq : 2 ^ 28 * (u64 c / 2 ^ 28)
               = 2 ^ 28 * (c / 2 ^ 28) - (c / 2 ^ 64) * 2 ^ 64).
  { unfold u64, Fixed.to_unsigned. divmod. }
  rewrite Hq.
  replace ((2 ^ 28 * (c / 2 ^ 28) - c / 2 ^ 64 * 2 ^ 64 + f mod 2 ^ 28) * 1000
           + d)
    with ((2 ^ 28 * (c / 2 ^ 28) + f mod 2 ^ 28) * 1000 + d
          + (- (1000 * (c / 2 ^ 64))) * 2 ^ 64) by lia.
  apply s64_shift.
Qed.

Lemma recover_reconstruct (hubshort cur_time : Z) (st : state) :
  let delta := motosh_realtime_delta st in
  let fragment_us := scale_hubshort hubshort in
  let estimate := estimate_us delta cur_time in
  let corrected :=
    fst (rollover_adjust estimate (short_estimate estimate) fragment_us st) in
  fst (motosh_time_recover hubshort cur_time st)
  = s64 (spec_reconstruct corrected fragment_us delta).
Proof.
  cbv zeta. rewrite recover_value. cbv zeta. apply splice_reconstruct.
Qed.

(** One span more or less in the estimate is one span more or less in the
    time spliced from it. *)
Lemma spec_reconstruct_span (k e f d : Z) :
  spec_reconstruct (e + k * 0x10000000) f d
  = spec_reconstruct e f d + k * 268435456000.
Proof.
  rewrite !spec_reconstruct_arith.
  change 0x10000000 with (2 ^ 28).
  rewrite Z.div_add by lia. lia.
Qed.

(** Two integers less than [2^64] apart are different [int64_t] values. *)
Lemma s64_shift_neq (a k : Z) :
  0 < Z.abs k < 2 ^ 64 -> s64 (a + k) <> s64 a.
Proof.
  intros Hk Heq.
  apply (f_equal (fun x => x mod 2 ^ 64)) in Heq.
  rewrite !s64_mod in Heq. divmod.
Qed.

(** C4, as the code has it: for a fragment below [2^27], where its scaling
    and the two differences are exact, the span [0x10000000] is added to the
    estimate exactly when estimate_low28 - fragment_us > 130,000,000,
    subtracted exactly when fragment_us - estimate_low28 > 130,000,000, and
    the estimate is kept exactly when the difference is at most 130,000,000
    either way; the time [motosh_time_recover] returns is the one spliced
    from the estimate so corrected, and from no other of the three. *)
Theorem rollover_threshold (hubshort cur_time : Z) (st : state) :
  0 <= hubshort < 2 ^ 27 ->
  let offset := motosh_realtime_delta st in
  let fragment_us := hubshort * 16 in
  let estimate := estimate_us offset cur_time in
  let estimate_low28 := Z.land estimate 0xFFFFFFF in
  let corrected :=
    fst (rollover_adjust estimate (short_estimate estimate)
           (scale_hubshort hubshort) st) in
  let returned := fst (motosh_time_recover hubshort cur_time st) in
  let spliced := fun e : Z => s64 (spec_reconstruct e fragment_us offset) in
  (corrected = estimate + 0x10000000
   <-> estimate_low28 - fragment_us > 130000000)
  /\ (corrected = estimate - 0x10000000
      <-> fragment_us - estimate_low28 > 130000000)
  /\ (corrected = estimate
      <-> estimate_low28 - fragment_us <= 130000000
          /\ fragment_us - estimate_low28 <= 130000000)
  /\ returned = spliced corrected
  /\ (returned = spliced (estimate + 0x10000000)
      <-> estimate_low28 - fragment_us > 130000000)
  /\ (returned = spliced (estimate - 0x10000000)
      <-> fragment_us - estimate_low28 > 130000000)
  /\ (returned = spliced estimate
      <-> estimate_low28 - fragment_us <= 130000000
          /\ fragment_us - estimate_low28 <= 130000000).
Proof.
  intros Hh offset fragment_us estimate estimate_low28 corrected returned
    spliced.
  assert (Hc : corrected
               = spec_corrected_estimate estimate estimate_low28 fragment_us).
  { subst corrected. rewrite scale_hubshort_small by lia.
    apply rollover_adjust_spec. lia. }
  assert (Hr : returned = spliced corrected).
  { subst returned spliced corrected. cbv beta.
    rewrite recover_reconstruct. cbv zeta. fold offset estimate.
    rewrite (scale_hubshort_small hubshort) by lia. reflexivity. }
  assert (Hup : spliced (estimate + 0x10000000)
                = s64 (spec_reconstruct estimate fragment_us offset
                       + 268435456000)).
  { unfold spliced.
    rewrite <- (spec_reconstruct_span 1). reflexivity. }
  assert (Hdown : spliced (estimate - 0x10000000)
                  = s64 (spec_reconstruct estimate fragment_us offset
                         + - 268435456000)).
  { unfold spliced.
    rewrite <- (spec_reconstruct_span (-1)). reflexivity. }
  pose proof (s64_shift_neq (spec_reconstruct estimate fragment_us offset)
                268435456000) as N1.
  pose proof (s64_shift_neq (spec_reconstruct estimate fragment_us offset)
                (- 268435456000)) as N2.
  pose proof (s64_shift_neq
                (spec_reconstruct estimate fragment_us offset + 268435456000)
                (- 536870912000)) as N3.
  replace (spec_reconstruct estimate fragment_us offset + 268435456000
           + - 536870912000)
    with (spec_reconstruct estimate fragment_us offset + - 268435456000)
    in N3 by lia.
  specialize (N1 ltac:(lia)). specialize (N2 ltac:(lia)).
  specialize (N3 ltac:(lia)).
  rewrite Hr, Hup, Hdown. rewrite Hc.
  unfold spec_corrected_estimate, ROLL_THRESHOLD_US, SPAN_US.
  destruct (Z.gtb_spec (estimate_low28 - fragment_us) 130000000);
    [| destruct (Z.gtb_spec (fragment_us - estimate_low28) 130000000)];
    rewrite ?Hup, ?Hdown; subst spliced; cbv beta in *;
    repeat split; intros; try reflexivity; try lia;
    exfalso; congruence.
Qed.

Lemma rollover_threshold_witness :
  fst (motosh_time_recover 125000 2051000000 (mkState 50000000 []))
  = s64 (spec_reconstruct (estimate_us 50000000 2051000000) (125000 * 16)
           50000000).
Proof.
  destruct (rollover_threshold 125000 2051000000 (mkState 50000000 []))
    as [_ [_ [_ [_ [_ [_ Hkeep]]]]]]; [lia |].
  apply Hkeep. vm_compute. split; discriminate.
Defined.

(** At the fragment [2^27], inside the 28 bits, with the offset and
    [cur_time] at 0: the fragment in microseconds is [2^31] and the low 28
    bits of the estimate are 0, so the difference is far above 130,000,000,
    and no span is subtracted; nor is one added, though with the scaled
    value of the code, [-2^31], the difference the other way is above
    130,000,000 too.  The time returned is the one spliced from the estimate
    as it was. *)
Lemma rollover_threshold_fails_at_2p27 :
  let fragment := 134217728 in
  let estimate := estimate_us 0 0 in
  let estimate_low28 := Z.land estimate 0xFFFFFFF in
  let corrected :=
    fst (rollover_adjust estimate (short_estimate estimate)
           (scale_hubshort fragment) st0) in
  0 <= fragment < 2 ^ 28
  /\ fragment * 16 - estimate_low28 > 130000000
  /\ estimate_low28 - scale_hubshort fragment > 130000000
  /\ corrected = estimate
  /\ corrected <> estimate - 0x10000000
  /\ corrected <> estimate + 0x10000000
  /\ fst (motosh_time_recover fragment 0 st0) = 0.
Proof.
  cbv zeta. repeat split; try reflexivity; try lia;
    vm_compute; discriminate.
Qed.

(** C5: [motosh_time_recover] returns
    ((corrected_estimate & ~0xFFFFFFF) | (fragment_us & 0xFFFFFFF)) * 1000
    + offset, as a 64-bit value, and that number itself whenever it is an
    [int64_t]; corrected_estimate is (host_now - offset) / 1000, rounded
    towards zero, after the rollover correction, and fragment_us the scaled
    fragment. *)
Theorem recover_formula (hubshort cur_time : Z) (st : state) :
  let offset := motosh_realtime_delta st in
  let fragment_us := scale_hubshort hubshort in
  let estimate := Z.quot (sub64 cur_time offset) 1000 in
  let corrected :=
    fst (rollover_adjust estimate (short_estimate estimate) fragment_us st) in
  let formula :=
    Z.lor (Z.land corrected (Z.lnot 0xFFFFFFF)) (Z.land fragment_us 0xFFFFFFF)
      * 1000 + offset in
  fst (motosh_time_recover hubshort cur_time st) = s64 formula
  /\ (is_int64 formula ->
      fst (motosh_time_recover hubshort cur_time st) = formula)
  /\ (0 <= hubshort < 2 ^ 27 ->
      corrected
      = spec_corrected_estimate estimate (Z.land estimate 0xFFFFFFF)
          (hubshort * 16)).
Proof.
  intros offset fragment_us estimate corrected formula.
  pose proof (recover_reconstruct hubshort cur_time st) as Hr.
  cbv zeta in Hr. fold offset fragment_us in Hr.
  change (estimate_us offset cur_time) with estimate in Hr.
  fold corrected in Hr.
  change (spec_reconstruct corrected fragment_us offset) with formula in Hr.
  split; [exact Hr | split].
  - intros Hfit. rewrite Hr. apply s64_id, Hfit.
  - intros Hh. subst corrected fragment_us.
    rewrite scale_hubshort_small by lia.
    apply (rollover_adjust_spec offset cur_time). lia.
Qed.

Lemma recover_formula_witness :
  fst (motosh_time_recover 125000 2051000000 (mkState 50000000 []))
  = Z.lor (Z.land 2001000 (Z.lnot 0xFFFFFFF)) (Z.land 2000000 0xFFFFFFF)
      * 1000 + 50000000.
Proof.
  destruct (recover_formula 125000 2051000000 (mkState 50000000 []))
    as [_ [Hexact _]].
  apply Hexact. vm_compute. split; discriminate.
Defined.

(** ** Round trip through the fragment *)

(** When the estimate is within the threshold of the hub's counter, the
    corrected estimate and the counter have the same bits above the low
    28. *)
Lemma corrected_epoch (E H : Z) :
  Z.abs (E - H) <= 130000000 ->
  spec_corrected_estimate E (E mod 2 ^ 28) (H mod 2 ^ 28) / 2 ^ 28
  = H / 2 ^ 28.
Proof.
  intros Hclose.
  unfold spec_corrected_estimate, ROLL_THRESHOLD_US, SPAN_US.
  destruct (Z.gtb_spec (E mod 2 ^ 28 - H mod 2 ^ 28) 130000000);
    [| destruct (Z.gtb_spec (H mod 2 ^ 28 - E mod 2 ^ 28) 130000000)];
    divmod.
Qed.

(** The fragment of a hub time that is a whole number of ticks, scaled back
    by the driver, is the low 28 bits of the hub's microsecond counter. *)
Lemma scale_hub_fragment (offset T : Z) :
  hub_us offset T mod 16 = 0 ->
  scale_hubshort (hub_fragment offset T) = hub_us offset T mod 2 ^ 28.
Proof.
  intros Htick. unfold hub_fragment.
  rewrite land_low28, Z.shiftr_div_pow2 by lia.
  rewrite scale_hubshort_small by divmod.
  divmod.
Qed.

(** C2, as the code has it: a timestamp of the host base whose hub time is
    a whole number of 16-microsecond ticks, and which is at most 130 s
    (the threshold of the code) before or after [host_now], comes back
    exactly from its fragment. *)
Theorem recover_roundtrip (T host_now : Z) (st : state) :
  let offset := motosh_realtime_delta st in
  - 2 ^ 62 <= offset < 2 ^ 62 ->
  0 <= T - offset < 2 ^ 62 ->
  (T - offset) mod 16000 = 0 ->
  Z.abs (host_now - T) <= 130000000000 ->
  fst (motosh_time_recover (hub_fragment offset T) host_now st) = T.
Proof.
  intros offset Hoff Hhub Htick Hage.
  rewrite recover_reconstruct. cbv zeta. fold offset.
  set (H := hub_us offset T).
  assert (HT : T - offset = 1000 * H) by (unfold H, hub_us; divmod).
  assert (HH16 : H mod 16 = 0) by (unfold H, hub_us; divmod).
  rewrite (scale_hub_fragment offset T HH16). fold H.
  set (E := estimate_us offset host_now).
  assert (HE : Z.abs (E - H) <= 130000000).
  { unfold E, estimate_us, div64_s64, sub64.
    rewrite s64_id by (unfold is_int64, INT64_MIN, INT64_MAX; lia).
    Z.to_euclidean_division_equations. lia. }
  pose proof (Z.mod_pos_bound H (2 ^ 28)) as Hh.
  unfold E at 1 2.
  rewrite (rollover_adjust_spec offset host_now (H mod 2 ^ 28) st) by lia.
  fold E. rewrite land_low28, spec_reconstruct_arith.
  rewrite (corrected_epoch E H HE), Z.mod_mod by lia.
  replace (2 ^ 28 * (H / 2 ^ 28) + H mod 2 ^ 28) with H by divmod.
  replace (H * 1000 + offset) with T by lia.
  apply s64_id. unfold is_int64, INT64_MIN, INT64_MAX. lia.
Qed.

Lemma recover_roundtrip_witness :
  fst (motosh_time_recover (hub_fragment 50000000 2050000000) 2051000000
         (mkState 50000000 []))
  = 2050000000.
Proof.
  apply (recover_roundtrip 2050000000 2051000000 (mkState 50000000 []));
    cbn [motosh_realtime_delta]; [lia | lia | reflexivity | lia].
Defined.

(** A timestamp 132 s old is inside half the wrap window (134.217728 s)
    and outside the threshold of the code: hub time 1 s, offset
    50,000,000, [host_now] 132 s later.  The estimate is rolled forward and
    the call returns a time one span (268.435456 s) too late. *)
Lemma recover_wrong_at_132s :
  let offset := 50000000 in
  let T := 1050000000 in
  let host_now := 133050000000 in
  Z.abs (host_now - T) <= 2 ^ 27 * 1000
  /\ (T - offset) mod 16000 = 0
  /\ fst (motosh_time_recover (hub_fragment offset T) host_now
            (mkState offset []))
     = T + 268435456000
  /\ fst (motosh_time_recover (hub_fragment offset T) host_now
            (mkState offset []))
     <> T.
Proof.
  cbv zeta. split; [lia | split; [reflexivity | split]].
  - reflexivity.
  - vm_compute. discriminate.
Qed.

(** The fragment counts ticks of 16 microseconds: what a hub time has below
    a tick does not come back. *)
Example recover_drops_sub_tick :
  fst (motosh_time_recover (hub_fragment 0 1000) 1000 st0) = 0.
Proof. reflexivity. Qed.

(** Just past the threshold the same happens: 130.000001 s. *)
Example recover_wrong_past_threshold :
  fst (motosh_time_recover (hub_fragment 0 0) 130000001000 st0)
  = 268435456000.
Proof. reflexivity. Qed.

(** ** [motosh_time_drift_comp] *)

(** The three ways through the function. *)
Lemma drift_comp_up (rec_hub cur_time : Z) (st : state) :
  sub64 cur_time rec_hub > MAX_DRIFT_LATENCY ->
  motosh_time_drift_comp rec_hub cur_time true st
  = (1, mkState (add64 (motosh_realtime_delta st) DRIFT_NUDGE) (trace st)).
Proof.
  intros Hgt. unfold motosh_time_drift_comp.
  destruct (Z.gtb_spec (sub64 cur_time rec_hub) MAX_DRIFT_LATENCY);
    [reflexivity | lia].
Qed.

Lemma drift_comp_down (rec_hub cur_time : Z) (streaming : bool) (st : state) :
  sub64 cur_time rec_hub < MIN_DRIFT_LATENCY ->
  motosh_time_drift_comp rec_hub cur_time streaming st
  = (-1, mkState (sub64 (motosh_realtime_delta st) DRIFT_NUDGE) (trace st)).
Proof.
  intros Hlt. unfold motosh_time_drift_comp.
  destruct (Z.gtb_spec (sub64 cur_time rec_hub) MAX_DRIFT_LATENCY) as [Hgt | _].
  - unfold MAX_DRIFT_LATENCY, MIN_DRIFT_LATENCY in *. lia.
  - rewrite andb_false_r.
    destruct (Z.ltb_spec (sub64 cur_time rec_hub) MIN_DRIFT_LATENCY);
      [reflexivity | lia].
Qed.

Lemma drift_comp_none (rec_hub cur_time : Z) (streaming : bool) (st : state) :
  streaming = false \/ sub64 cur_time rec_hub <= MAX_DRIFT_LATENCY ->
  MIN_DRIFT_LATENCY <= sub64 cur_time rec_hub ->
  motosh_time_drift_comp rec_hub cur_time streaming st = (0, st).
Proof.
  intros Hup Hlow. unfold motosh_time_drift_comp.
  assert (Hb : streaming && (sub64 cur_time rec_hub >? MAX_DRIFT_LATENCY)
               = false).
  { destruct Hup as [-> | Hle]; [reflexivity |].
    destruct (Z.gtb_spec (sub64 cur_time rec_hub) MAX_DRIFT_LATENCY);
      [lia | apply andb_false_r]. }
  rewrite Hb.
  destruct (Z.ltb_spec (sub64 cur_time rec_hub) MIN_DRIFT_LATENCY);
    [lia | reflexivity].
Qed.

Lemma drift_comp_cases (rec_hub cur_time : Z) (streaming : bool) (st : state) :
  drift_case rec_hub cur_time streaming st.
Proof.
  destruct (Z.lt_ge_cases (sub64 cur_time rec_hub) MIN_DRIFT_LATENCY)
    as [Hlt | Hge].
  - apply DriftDown; [exact Hlt | apply drift_comp_down, Hlt].
  - destruct (Z.le_gt_cases (sub64 cur_time rec_hub) MAX_DRIFT_LATENCY)
      as [Hle | Hgt].
    + apply DriftNone; [right; exact Hle | exact Hge |].
      apply drift_comp_none; [right; exact Hle | exact Hge].
    + destruct streaming.
      * apply DriftUp; [reflexivity | lia | apply drift_comp_up; lia].
      * apply DriftNone; [left; reflexivity | exact Hge |].
        apply drift_comp_none; [left; reflexivity | exact Hge].
Qed.

(** C6: with the observed offset [cur_time - rec_hub] of the code, the call
    returns 1 exactly when [streaming] holds and the observed offset is
    above 100,000,000; it returns -1 exactly when the observed offset is
    below 200,000, whatever [streaming] is; it returns 0 otherwise, and so
    at either bound.  The offset goes up by 50,000 exactly when 1 is
    returned, down by 50,000 exactly when -1 is returned, and stays exactly
    when 0 is returned. *)
Theorem drift_comp_decision (rec_hub cur_time : Z) (streaming : bool)
    (st : state) :
  let observed_offset := sub64 cur_time rec_hub in
  let nudged := fst (motosh_time_drift_comp rec_hub cur_time streaming st) in
  let before := motosh_realtime_delta st in
  let after :=
    motosh_realtime_delta
      (snd (motosh_time_drift_comp rec_hub cur_time streaming st)) in
  (nudged = 1 <-> streaming = true /\ observed_offset > 100000000)
  /\ (nudged = -1 <-> observed_offset < 200000)
  /\ (nudged = 0 <->
      ~ (streaming = true /\ observed_offset > 100000000)
      /\ ~ observed_offset < 200000)
  /\ (observed_offset = 100000000 -> nudged = 0)
  /\ (observed_offset = 200000 -> nudged = 0)
  /\ after = (if nudged =? 0 then before else add64 before (nudged * 50000))
  /\ (is_int64 (before + 50000) -> is_int64 (before - 50000) ->
      (after = before + 50000 <-> nudged = 1)
      /\ (after = before - 50000 <-> nudged = -1)
      /\ (after = before <-> nudged = 0))
  /\ (is_int64 (cur_time - rec_hub) -> observed_offset = cur_time - rec_hub).
Proof.
  cbv zeta.
  pose proof (s64_id (cur_time - rec_hub)) as Hexact.
  fold (sub64 cur_time rec_hub) in Hexact.
  destruct (drift_comp_cases rec_hub cur_time streaming st)
    as [Hs Hgt Hrun | Hlt Hrun | Hup Hlow Hrun];
    rewrite Hrun; cbn [fst snd motosh_realtime_delta];
    set (o := sub64 cur_time rec_hub) in *;
    set (d := motosh_realtime_delta st) in *;
    unfold MAX_DRIFT_LATENCY, MIN_DRIFT_LATENCY, DRIFT_NUDGE in *.
  - assert (Hnot : ~ (~ (streaming = true /\ o > 100000000) /\ ~ o < 200000))
      by tauto.
    repeat split; try tauto; try lia; try exact Hexact; intros;
      unfold add64 in *;
      rewrite ?(s64_id (d + 50000)) in * by assumption; lia.
  - repeat split; try tauto; try lia; try exact Hexact; intros;
      unfold add64, sub64 in *;
      rewrite ?(s64_id (d - 50000)) in * by assumption;
      try lia; try (f_equal; lia).
  - assert (Hnot : ~ (streaming = true /\ o > 100000000)).
    { intros [Hs Hgt]. destruct Hup as [Hf | Hle]; [congruence | lia]. }
    repeat split; try tauto; try lia; try exact Hexact; intros; lia.
Qed.

Lemma drift_comp_decision_witness :
  fst (motosh_time_drift_comp 2050000000 2150000001 true
         (mkState 50000000 [])) = 1
  /\ motosh_realtime_delta
       (snd (motosh_time_drift_comp 2050000000 2150000001 true
               (mkState 50000000 []))) = 50000000 + 50000.
Proof.
  pose proof (drift_comp_decision 2050000000 2150000001 true
                (mkState 50000000 [])) as H.
  cbv zeta in H.
  destruct H as [Hup [_ [_ [_ [_ [_ [Heffect _]]]]]]].
  assert (Hn : fst (motosh_time_drift_comp 2050000000 2150000001 true
                      (mkState 50000000 [])) = 1).
  { apply Hup. split; [reflexivity | vm_compute; reflexivity]. }
  split; [exact Hn |].
  apply Heffect; [vm_compute; split; discriminate ..| exact Hn].
Defined.

(** C10: every call returns -1, 0 or 1, and the offset after the call is
    the offset before plus the returned value times 50,000, in the 64 bits
    of the offset; on 0 the offset is not written. *)
Theorem drift_comp_effect (rec_hub cur_time : Z) (streaming : bool)
    (st : state) :
  let nudged := fst (motosh_time_drift_comp rec_hub cur_time streaming st) in
  let before := motosh_realtime_delta st in
  let after :=
    motosh_realtime_delta
      (snd (motosh_time_drift_comp rec_hub cur_time streaming st)) in
  (nudged = -1 \/ nudged = 0 \/ nudged = 1)
  /\ after = (if nudged =? 0 then before else add64 before (nudged * 50000))
  /\ (is_int64 (before + nudged * 50000) -> after = before + nudged * 50000)
  /\ (nudged = 0 -> after = before).
Proof.
  cbv zeta.
  destruct (drift_comp_cases rec_hub cur_time streaming st)
    as [_ _ Hrun | _ Hrun | _ _ Hrun];
    rewrite Hrun; cbn [fst snd motosh_realtime_delta];
    unfold DRIFT_NUDGE, add64, sub64.
  - split; [auto | split; [reflexivity | split]].
    + intros Hfit. apply s64_id. exact Hfit.
    + discriminate.
  - split; [auto | split; [reflexivity | split]].
    + intros Hfit. apply s64_id. exact Hfit.
    + discriminate.
  - split; [auto | split; [reflexivity | split]].
    + intros _. lia.
    + reflexivity.
Qed.

Lemma drift_comp_effect_witness :
  motosh_realtime_delta
    (snd (motosh_time_drift_comp 2050000000 2050100000 false
            (mkState 50000000 [])))
  = 50000000
    + fst (motosh_time_drift_comp 2050000000 2050100000 false
             (mkState 50000000 [])) * 50000.
Proof.
  destruct (drift_comp_effect 2050000000 2050100000 false
              (mkState 50000000 [])) as [_ [_ [Hexact _]]].
  apply Hexact. vm_compute. split; discriminate.
Defined.

(** ** Calls inside the band *)

Lemma drift_comp_in_band (rec_hub cur_time : Z) (streaming : bool)
    (st : state) :
  MIN_DRIFT_LATENCY <= cur_time - rec_hub <= MAX_DRIFT_LATENCY ->
  motosh_time_drift_comp rec_hub cur_time streaming st = (0, st).
Proof.
  intros Hband.
  assert (Hoff : sub64 cur_time rec_hub = cur_time - rec_hub).
  { apply s64_id. unfold MIN_DRIFT_LATENCY, MAX_DRIFT_LATENCY in Hband.
    unfold is_int64, INT64_MIN, INT64_MAX. lia. }
  apply drift_comp_none; rewrite Hoff; [right |]; lia.
Qed.

(** C8: when [cur_time - rec_hub] is at least 200,000 and at most
    100,000,000, any number of calls with these arguments leaves the offset,
    and all of the state, as it was, for both values of [streaming]. *)
Theorem drift_comp_idempotent_in_band (n : nat) (rec_hub cur_time : Z)
    (streaming : bool) (st : state) :
  200000 <= cur_time - rec_hub <= 100000000 ->
  drift_comp_repeat n rec_hub cur_time streaming st = st
  /\ motosh_realtime_delta (drift_comp_repeat n rec_hub cur_time streaming st)
     = motosh_realtime_delta st.
Proof.
  intros Hband.
  assert (Hst : drift_comp_repeat n rec_hub cur_time streaming st = st).
  { induction n as [| n IH]; cbn [drift_comp_repeat]; [reflexivity |].
    rewrite drift_comp_in_band by exact Hband. exact IH. }
  rewrite Hst. split; reflexivity.
Qed.

Lemma drift_comp_idempotent_in_band_witness :
  motosh_realtime_delta
    (drift_comp_repeat 3 2050000000 2051000000 true (mkState 50000000 []))
  = 50000000.
Proof.
  apply (drift_comp_idempotent_in_band 3 2050000000 2051000000 true
           (mkState 50000000 [])).
  lia.
Defined.

(** ** What [motosh_time_sync] does to the outside *)

Lemma lock_held_from_app (held : bool) (l1 l2 : list event) :
  lock_held_from held (l1 ++ l2)
  = lock_held_from (lock_held_from held l1) l2.
Proof.
  revert held. induction l1 as [| e l1 IH]; intros held; [reflexivity |].
  destruct e; cbn [app lock_held_from]; apply IH.
Qed.

Lemma under_lock_from_app (held : bool) (l1 l2 : list event) :
  under_lock_from held (l1 ++ l2)
  = under_lock_from held l1 ++ under_lock_from (lock_held_from held l1) l2.
Proof.
  revert held. induction l1 as [| e l1 IH]; intros held; [reflexivity |].
  destruct e; cbn [app lock_held_from under_lock_from];
    try apply IH; destruct held; cbn [app]; rewrite IH; reflexivity.
Qed.

Lemma wake_line_from_app (level : Z) (l1 l2 : list event) :
  wake_line_from level (l1 ++ l2)
  = wake_line_from (wake_line_from level l1) l2.
Proof.
  revert level. induction l1 as [| e l1 IH]; intros level; [reflexivity |].
  destruct e; cbn [app wake_line_from]; apply IH.
Qed.

Lemma count_lock_init_app (l1 l2 : list event) :
  count_lock_init (l1 ++ l2)
  = (count_lock_init l1 + count_lock_init l2)%nat.
Proof.
  induction l1 as [| e l1 IH]; [reflexivity |].
  destruct e; cbn [app count_lock_init]; rewrite IH; reflexivity.
Qed.

(** The calls that one [motosh_time_sync] adds to the trace. *)
Lemma sync_trace (ts : timespec) (r : i2c_result) (st : state) :
  exists (msg : string) (args : list Z),
    trace (snd (motosh_time_sync ts r st))
    = trace st
      ++ (if motosh_realtime_delta st =? 0 then [SpinLockInit] else [])
      ++ [GpioSetValue 0; SpinLockIrqsave; GetMonotonicBoottime;
          GpioSetValue 1; SpinUnlockIrqrestore;
          I2cWriteRead ELAPSED_RT 1 8]
      ++ (if err r <? 0 then [DevErr "Unable to read hub time"] else [])
      ++ [DevDbg msg args].
Proof.
  do 2 eexists.
  unfold motosh_time_sync. run.
  destruct (motosh_realtime_delta st =? 0), (err r <? 0);
    cbn [fst snd motosh_realtime_delta trace];
    rewrite <- ?app_assoc; reflexivity.
Qed.

(** X1: a call of [motosh_time_sync] that starts with the lock free ends
    with the lock free; the only calls it makes with the lock held are the
    reading of the clock and the raising of the wake line, in this order, so
    the I2C transfer and the prints are made outside the lock; and it leaves
    the wake line high, whatever the line was before and whether or not the
    transfer failed. *)
Theorem sync_critical_section (ts : timespec) (r : i2c_result) (st : state) :
  lock_held_from false (trace st) = false ->
  let st' := snd (motosh_time_sync ts r st) in
  lock_held_from false (trace st') = false
  /\ under_lock_from false (trace st')
     = under_lock_from false (trace st)
       ++ [GetMonotonicBoottime; GpioSetValue 1]
  /\ (forall level : Z, wake_line_from level (trace st') = 1).
Proof.
  intros Hfree st'. subst st'.
  destruct (sync_trace ts r st) as [msg [args Htr]]. rewrite Htr.
  split; [| split].
  - rewrite lock_held_from_app, Hfree.
    destruct (motosh_realtime_delta st =? 0), (err r <? 0); reflexivity.
  - rewrite under_lock_from_app, Hfree.
    destruct (motosh_realtime_delta st =? 0), (err r <? 0); reflexivity.
  - intros level. rewrite wake_line_from_app.
    destruct (motosh_realtime_delta st =? 0), (err r <? 0); reflexivity.
Qed.

Lemma sync_critical_section_witness :
  under_lock_from false
    (trace (snd (motosh_time_sync (mkTimespec 1 50000000) failed_read st0)))
  = [GetMonotonicBoottime; GpioSetValue 1].
Proof.
  apply (sync_critical_section (mkTimespec 1 50000000) failed_read st0).
  reflexivity.
Defined.

(** X2: [spin_lock_init] is called by exactly those calls of
    [motosh_time_sync] that find the offset at zero: a call that finds
    another offset never initialises the lock, and a call that follows one
    which stored the offset 0 initialises it again. *)
Theorem sync_lock_init_count (ts1 ts2 : timespec) (r1 r2 : i2c_result)
    (st : state) :
  let st1 := snd (motosh_time_sync ts1 r1 st) in
  let st2 := snd (motosh_time_sync ts2 r2 st1) in
  let stored := sub64 (ap_time ts1) (s64 (hub_time_u64 (readbuff r1))) in
  count_lock_init (trace st1)
  = (count_lock_init (trace st)
     + if (motosh_realtime_delta st =? 0)%Z then 1 else 0)%nat
  /\ count_lock_init (trace st2)
     = (count_lock_init (trace st1) + if (stored =? 0)%Z then 1 else 0)%nat.
Proof.
  assert (Hone : forall ts r s,
             count_lock_init (trace (snd (motosh_time_sync ts r s)))
             = (count_lock_init (trace s)
                + if (motosh_realtime_delta s =? 0)%Z then 1 else 0)%nat).
  { intros ts r s. destruct (sync_trace ts r s) as [msg [args Htr]].
    rewrite Htr, count_lock_init_app.
    destruct (motosh_realtime_delta s =? 0), (err r <? 0); reflexivity. }
  cbv zeta. split; [apply Hone |].
  rewrite Hone, sync_delta. reflexivity.
Qed.

(** ** The two times that [motosh_time_sync] subtracts *)

(** X3: for a normalised [timespec] whose seconds leave room in 64 bits,
    [ap_time1] is seconds times 10^9 plus nanoseconds with nothing lost:
    seconds and nanoseconds can be read back from it. *)
Theorem ap_time_exact (ts : timespec) :
  0 <= tv_sec ts <= 9223372035 ->
  0 <= tv_nsec ts < 1000000000 ->
  ap_time ts = tv_sec ts * 1000000000 + tv_nsec ts
  /\ ap_time ts / 1000000000 = tv_sec ts
  /\ ap_time ts mod 1000000000 = tv_nsec ts.
Proof.
  intros Hs Hn.
  assert (Hv : ap_time ts = tv_sec ts * 1000000000 + tv_nsec ts).
  { unfold ap_time, add64, mul64.
    rewrite (s64_id (tv_sec ts * 1000000000))
      by (unfold is_int64, INT64_MIN, INT64_MAX; lia).
    apply s64_id. unfold is_int64, INT64_MIN, INT64_MAX. lia. }
  rewrite Hv. repeat split; divmod.
Qed.

Lemma ap_time_exact_witness :
  ap_time (mkTimespec 1 50000000) = 1 * 1000000000 + 50000000.
Proof.
  apply (ap_time_exact (mkTimespec 1 50000000)); cbn [tv_sec tv_nsec]; lia.
Defined.

Lemma be_decode_bound (buf : list byte) :
  List.length buf = 8%nat -> 0 <= be_decode buf < 2 ^ 64.
Proof.
  intros Hlen.
  do 8 (destruct buf as [| ? buf]; [discriminate Hlen |]).
  destruct buf; [| discriminate Hlen].
  unfold be_decode. cbn [fold_left].
  repeat match goal with
         | |- context [Byte.to_N ?b] =>
             pose proof (Byte.to_N_bounded b);
             generalize dependent (Byte.to_N b); intros
         end.
  lia.
Qed.

(** X4: [hub_time] is the counter of the response times 1000 exactly when
    the counter is at most 9,223,372,036,854,775 microseconds; above that
    the product is no [int64_t] and [hub_time] is another number. *)
Theorem hub_time_exact_iff (buf : list byte) :
  List.length buf = 8%nat ->
  (s64 (hub_time_u64 buf) = be_decode buf * 1000
   <-> be_decode buf <= 9223372036854775).
Proof.
  intros Hlen. pose proof (be_decode_bound buf Hlen) as Hb.
  rewrite (hub_time_u64_decode buf Hlen). split.
  - intros Heq.
    pose proof (s64_range (u64 (be_decode buf * 1000))) as Hr.
    rewrite Heq in Hr. unfold is_int64, INT64_MIN, INT64_MAX in Hr. lia.
  - intros Hle.
    rewrite u64_id by lia.
    apply s64_id. unfold is_int64, INT64_MIN, INT64_MAX. lia.
Qed.

Lemma hub_time_exact_iff_witness :
  s64 (hub_time_u64 (readbuff resp_1s)) = be_decode (readbuff resp_1s) * 1000.
Proof.
  apply (hub_time_exact_iff (readbuff resp_1s) eq_refl).
  vm_compute. discriminate.
Defined.

(** ** Times recovered from a hub counter *)

Lemma scale_hubshort_of_us (us : Z) :
  us mod 16 = 0 -> scale_hubshort (hubshort_of_us us) = us mod 2 ^ 28.
Proof.
  intros Htick. unfold hubshort_of_us.
  rewrite land_low28, Z.shiftr_div_pow2 by lia.
  rewrite scale_hubshort_small by divmod.
  divmod.
Qed.

(** A hub counter that is a whole number of ticks and within the threshold
    of the estimate is recovered: the value returned is the counter in
    nanoseconds plus the offset. *)
Lemma recover_hub_time (us cur_time : Z) (st : state) :
  us mod 16 = 0 ->
  Z.abs (estimate_us (motosh_realtime_delta st) cur_time - us) <= 130000000 ->
  fst (motosh_time_recover (hubshort_of_us us) cur_time st)
  = s64 (us * 1000 + motosh_realtime_delta st).
Proof.
  intros Htick Hclose.
  rewrite recover_reconstruct. cbv zeta.
  rewrite (scale_hubshort_of_us us Htick).
  pose proof (Z.mod_pos_bound us (2 ^ 28)) as Hh.
  rewrite (rollover_adjust_spec _ cur_time (us mod 2 ^ 28) st) by lia.
  rewrite land_low28, spec_reconstruct_arith.
  rewrite (corrected_epoch _ us Hclose), Z.mod_mod by lia.
  replace (2 ^ 28 * (us / 2 ^ 28) + us mod 2 ^ 28) with us by divmod.
  reflexivity.
Qed.

(** X5: after a call of [motosh_time_sync] that sampled the host time
    [host_t1] and read the counter [c], an event that the hub stamped at
    [us] microseconds, a whole number of ticks, is recovered as
    [host_t1 + (us - c) * 1000] whenever [host_now] is within 130 s of that
    time, whatever the offset was before the call. *)
Theorem sync_then_recover (ts : timespec) (r : i2c_result) (st : state)
    (us host_now : Z) :
  let host_t1 := ap_time ts in
  let c := be_decode (readbuff r) in
  List.length (readbuff r) = 8%nat ->
  c * 1000 <= 2 ^ 61 ->
  - 2 ^ 61 <= host_t1 <= 2 ^ 61 ->
  0 <= us * 1000 <= 2 ^ 61 ->
  us mod 16 = 0 ->
  Z.abs (host_now - (host_t1 + (us - c) * 1000)) <= 130000000000 ->
  fst (motosh_time_recover (hubshort_of_us us) host_now
         (snd (motosh_time_sync ts r st)))
  = host_t1 + (us - c) * 1000.
Proof.
  intros host_t1 c Hlen Hc Ht Hus Htick Hnear.
  pose proof (be_decode_bound (readbuff r) Hlen) as Hb. fold c in Hb.
  set (st1 := snd (motosh_time_sync ts r st)).
  assert (Hd : motosh_realtime_delta st1 = host_t1 - c * 1000).
  { unfold st1. rewrite sync_delta, hub_time_u64_decode by exact Hlen.
    unfold sub64. rewrite s64_sub_u64. apply s64_id.
    unfold is_int64, INT64_MIN, INT64_MAX. fold host_t1 c. lia. }
  rewrite recover_hub_time; rewrite ?Hd.
  - replace (us * 1000 + (host_t1 - c * 1000))
      with (host_t1 + (us - c) * 1000) by lia.
    apply s64_id. unfold is_int64, INT64_MIN, INT64_MAX. lia.
  - exact Htick.
  - unfold estimate_us, div64_s64, sub64.
    rewrite s64_id by (unfold is_int64, INT64_MIN, INT64_MAX; lia).
    Z.to_euclidean_division_equations. lia.
Qed.

Lemma sync_then_recover_witness :
  fst (motosh_time_recover (hubshort_of_us 2000000) 2051000000
         (snd (motosh_time_sync (mkTimespec 1 50000000) resp_1s
                 (mkState 123456789 []))))
  = 1050000000 + (2000000 - 1000000) * 1000.
Proof.
  apply (sync_then_recover (mkTimespec 1 50000000) resp_1s
           (mkState 123456789 []) 2000000 2051000000);
    try reflexivity; vm_compute; try split; discriminate.
Defined.

(** The value returned for a fragment of three bytes when the times are
    well inside 64 bits: nothing wraps. *)
Lemma recover_in_range (hubshort cur_time : Z) (st : state) :
  let delta := motosh_realtime_delta st in
  let E := estimate_us delta cur_time in
  let c := spec_corrected_estimate E (E mod 2 ^ 28) (hubshort * 16) in
  0 <= hubshort < 2 ^ 24 ->
  - 2 ^ 61 <= cur_time <= 2 ^ 61 ->
  - 2 ^ 61 <= delta <= 2 ^ 61 ->
  fst (motosh_time_recover hubshort cur_time st)
  = (2 ^ 28 * (c / 2 ^ 28) + hubshort * 16) * 1000 + delta.
Proof.
  intros delta E c Hh Hcur Hdelta.
  rewrite recover_reconstruct. cbv zeta. fold delta E.
  rewrite scale_hubshort_small by lia.
  unfold E at 1 2.
  rewrite (rollover_adjust_spec delta cur_time (hubshort * 16) st) by lia.
  fold E. rewrite land_low28. fold c.
  rewrite spec_reconstruct_arith, (Z.mod_small (hubshort * 16)) by lia.
  apply s64_id.
  assert (HE : - 2 ^ 62 <= E * 1000 <= 2 ^ 62).
  { unfold E, estimate_us, div64_s64, sub64.
    rewrite s64_id by (unfold is_int64, INT64_MIN, INT64_MAX; lia).
    Z.to_euclidean_division_equations. lia. }
  assert (Hc : E - 2 ^ 28 <= c <= E + 2 ^ 28).
  { unfold c, spec_corrected_estimate, SPAN_US.
    destruct (_ >? _); [| destruct (_ >? _)]; lia. }
  unfold is_int64, INT64_MIN, INT64_MAX.
  pose proof (Z.mul_div_le c (2 ^ 28)).
  pose proof (Z.mul_succ_div_gt c (2 ^ 28)). lia.
Qed.

(** X6: the fragment comes back from the time returned: for a fragment of
    three bytes and times well inside 64 bits, the time returned less the
    offset is a whole number of 16-microsecond ticks, and the low 28 bits of
    its microseconds, in ticks, are the fragment, whatever [cur_time] is and
    whichever way the rollover was decided. *)
Theorem recover_keeps_fragment (hubshort cur_time : Z) (st : state) :
  let delta := motosh_realtime_delta st in
  let hub_ns := fst (motosh_time_recover hubshort cur_time st) - delta in
  0 <= hubshort < 2 ^ 24 ->
  - 2 ^ 61 <= cur_time <= 2 ^ 61 ->
  - 2 ^ 61 <= delta <= 2 ^ 61 ->
  hub_ns mod 16000 = 0
  /\ hubshort_of_us (hub_ns / 1000) = hubshort.
Proof.
  intros delta hub_ns Hh Hcur Hdelta. subst hub_ns.
  rewrite (recover_in_range hubshort cur_time st Hh Hcur Hdelta).
  fold delta.
  set (q := _ / 2 ^ 28). clearbody q.
  replace ((2 ^ 28 * q + hubshort * 16) * 1000 + delta - delta)
    with ((2 ^ 28 * q + hubshort * 16) * 1000) by lia.
  split; [divmod |].
  unfold hubshort_of_us.
  rewrite Z.div_mul, land_low28, Z.shiftr_div_pow2 by lia.
  divmod.
Qed.

Lemma recover_keeps_fragment_witness :
  hubshort_of_us
    ((fst (motosh_time_recover 125000 2051000000 (mkState 50000000 []))
      - 50000000) / 1000)
  = 125000.
Proof.
  apply (recover_keeps_fragment 125000 2051000000 (mkState 50000000 []));
    cbn [motosh_realtime_delta]; lia.
Defined.

(** X7: the time returned is never far from [cur_time]: for a fragment of
    three bytes and times well inside 64 bits the two differ by less than
    138.435456 s, the span less the threshold. *)
Theorem recover_near_cur_time (hubshort cur_time : Z) (st : state) :
  let delta := motosh_realtime_delta st in
  0 <= hubshort < 2 ^ 24 ->
  - 2 ^ 61 <= cur_time <= 2 ^ 61 ->
  - 2 ^ 61 <= delta <= 2 ^ 61 ->
  Z.abs (fst (motosh_time_recover hubshort cur_time st) - cur_time)
  < 138435456000.
Proof.
  intros delta Hh Hcur Hdelta.
  rewrite (recover_in_range hubshort cur_time st Hh Hcur Hdelta).
  fold delta.
  unfold estimate_us, div64_s64, sub64.
  rewrite s64_id by (unfold is_int64, INT64_MIN, INT64_MAX; lia).
  unfold spec_corrected_estimate, ROLL_THRESHOLD_US, SPAN_US.
  destruct (Z.gtb_spec (Z.quot (cur_time - delta) 1000 mod 2 ^ 28
                        - hubshort * 16) 130000000);
    [| destruct (Z.gtb_spec (hubshort * 16
                             - Z.quot (cur_time - delta) 1000 mod 2 ^ 28)
                            130000000)];
    Z.to_euclidean_division_equations; lia.
Qed.

Lemma recover_near_cur_time_witness :
  Z.abs (fst (motosh_time_recover 125000 2051000000 (mkState 50000000 []))
         - 2051000000)
  < 138435456000.
Proof.
  apply (recover_near_cur_time 125000 2051000000 (mkState 50000000 []));
    cbn [motosh_realtime_delta]; lia.
Defined.

(** ** A nudge and the next sample *)

(** X8: a nudge moves the next sample by the nudge.  When a hub counter of a
    whole number of ticks is recovered within the threshold and
    [motosh_time_drift_comp] is called on the result, the same fragment
    recovered again at the same [cur_time] is the previous result plus the
    returned direction times 50,000: after a nudge up the observed offset is
    50,000 less, after a nudge down 50,000 more. *)
Theorem nudge_moves_next_recover (us cur_time : Z) (streaming : bool)
    (st : state) :
  let delta := motosh_realtime_delta st in
  let rec_hub := fst (motosh_time_recover (hubshort_of_us us) cur_time st) in
  let nudged :=
    fst (motosh_time_drift_comp rec_hub cur_time streaming st) in
  let st' := snd (motosh_time_drift_comp rec_hub cur_time streaming st) in
  us mod 16 = 0 ->
  0 <= us * 1000 <= 2 ^ 60 ->
  - 2 ^ 60 <= delta <= 2 ^ 60 ->
  - 2 ^ 60 <= cur_time <= 2 ^ 60 ->
  Z.abs (estimate_us delta cur_time - us) <= 130000000 ->
  fst (motosh_time_recover (hubshort_of_us us) cur_time st')
  = rec_hub + nudged * 50000.
Proof.
  intros delta rec_hub nudged st' Htick Hus Hdelta Hcur Hclose.
  assert (Hrec : rec_hub = us * 1000 + delta).
  { unfold rec_hub. rewrite (recover_hub_time us cur_time st Htick Hclose).
    apply s64_id. unfold is_int64, INT64_MIN, INT64_MAX. fold delta. lia. }
  assert (Hoff : sub64 cur_time rec_hub = cur_time - rec_hub).
  { apply s64_id. unfold is_int64, INT64_MIN, INT64_MAX. lia. }
  unfold estimate_us, div64_s64, sub64 in Hclose.
  rewrite s64_id in Hclose by (unfold is_int64, INT64_MIN, INT64_MAX; lia).
  subst nudged st'.
  destruct (drift_comp_cases rec_hub cur_time streaming st)
    as [_ Hgt Hrun | Hlt Hrun | _ _ Hrun];
    rewrite Hrun; cbn [fst snd]; fold delta;
    unfold MAX_DRIFT_LATENCY, MIN_DRIFT_LATENCY, DRIFT_NUDGE in *.
  - rewrite Hoff in Hgt.
    assert (Hd : add64 delta 50000 = delta + 50000)
      by (apply s64_id; unfold is_int64, INT64_MIN, INT64_MAX; lia).
    rewrite recover_hub_time; cbn [motosh_realtime_delta]; rewrite ?Hd.
    + rewrite s64_id by (unfold is_int64, INT64_MIN, INT64_MAX; lia). lia.
    + exact Htick.
    + unfold estimate_us, div64_s64, sub64.
      rewrite s64_id by (unfold is_int64, INT64_MIN, INT64_MAX; lia).
      Z.to_euclidean_division_equations. lia.
  - rewrite Hoff in Hlt.
    assert (Hd : sub64 delta 50000 = delta - 50000)
      by (apply s64_id; unfold is_int64, INT64_MIN, INT64_MAX; lia).
    rewrite recover_hub_time; cbn [motosh_realtime_delta]; rewrite ?Hd.
    + rewrite s64_id by (unfold is_int64, INT64_MIN, INT64_MAX; lia). lia.
    + exact Htick.
    + unfold estimate_us, div64_s64, sub64.
      rewrite s64_id by (unfold is_int64, INT64_MIN, INT64_MAX; lia).
      Z.to_euclidean_division_equations. lia.
  - fold rec_hub. lia.
Qed.

Lemma nudge_moves_next_recover_witness :
  fst (motosh_time_recover (hubshort_of_us 2000000) 2250000000
         (snd (motosh_time_drift_comp
                 (fst (motosh_time_recover (hubshort_of_us 2000000) 2250000000
                         (mkState 50000000 [])))
                 2250000000 true (mkState 50000000 []))))
  = fst (motosh_time_recover (hubshort_of_us 2000000) 2250000000
           (mkState 50000000 []))
    + fst (motosh_time_drift_comp
             (fst (motosh_time_recover (hubshort_of_us 2000000) 2250000000
                     (mkState 50000000 [])))
             2250000000 true (mkState 50000000 [])) * 50000.
Proof.
  apply (nudge_moves_next_recover 2000000 2250000000 true
           (mkState 50000000 []));
    cbn [motosh_realtime_delta]; try lia; try reflexivity.
  vm_compute. discriminate.
Defined.

(** ** Calls of [motosh_time_drift_comp] one after the other *)

(** One call, in the 64 bits of the offset. *)
Lemma drift_comp_delta (rec_hub cur_time : Z) (streaming : bool)
    (st : state) :
  is_int64 (motosh_realtime_delta st) ->
  motosh_realtime_delta
    (snd (motosh_time_drift_comp rec_hub cur_time streaming st))
  = s64 (motosh_realtime_delta st
         + fst (motosh_time_drift_comp rec_hub cur_time streaming st) * 50000).
Proof.
  intros Hd.
  destruct (drift_comp_cases rec_hub cur_time streaming st)
    as [_ _ Hrun | _ Hrun | _ _ Hrun];
    rewrite Hrun; cbn [fst snd motosh_realtime_delta];
    unfold add64, sub64, DRIFT_NUDGE.
  - f_equal; lia.
  - f_equal; lia.
  - rewrite Z.add_0_r. symmetry. apply s64_id, Hd.
Qed.

(** The way a call goes does not depend on the state. *)
Lemma drift_comp_direction (rec_hub cur_time : Z) (streaming : bool)
    (st1 st2 : state) :
  fst (motosh_time_drift_comp rec_hub cur_time streaming st1)
  = fst (motosh_time_drift_comp rec_hub cur_time streaming st2).
Proof.
  unfold motosh_time_drift_comp.
  destruct (streaming && (sub64 cur_time rec_hub >? MAX_DRIFT_LATENCY));
    [reflexivity |].
  destruct (sub64 cur_time rec_hub <? MIN_DRIFT_LATENCY); reflexivity.
Qed.

Lemma drift_comp_seq_cons (c : drift_call) (calls : list drift_call)
    (st : state) :
  let run :=
    motosh_time_drift_comp (dc_rec_hub c) (dc_cur_time c) (dc_streaming c) st
  in
  drift_comp_seq (c :: calls) st
  = (fst run :: fst (drift_comp_seq calls (snd run)),
     snd (drift_comp_seq calls (snd run))).
Proof.
  cbv zeta. cbn [drift_comp_seq].
  destruct (motosh_time_drift_comp _ _ _ st) as [n st1]. cbn [fst snd].
  destruct (drift_comp_seq calls st1) as [ns st2]. reflexivity.
Qed.

(** X9: after any calls of [motosh_time_drift_comp], whatever their
    arguments, the offset is the offset before plus 50,000 times the sum of
    the values returned, in 64 bits; when as many calls returned 1 as
    returned -1 the offset is back where it was. *)
Theorem drift_comp_seq_offset (calls : list drift_call) (st : state) :
  is_int64 (motosh_realtime_delta st) ->
  let returned := fst (drift_comp_seq calls st) in
  let after := motosh_realtime_delta (snd (drift_comp_seq calls st)) in
  after = s64 (motosh_realtime_delta st + 50000 * sum_Z returned)
  /\ (sum_Z returned = 0 -> after = motosh_realtime_delta st)
  /\ List.length returned = List.length calls.
Proof.
  intros Hd. cbv zeta.
  assert (Hmain :
            motosh_realtime_delta (snd (drift_comp_seq calls st))
            = s64 (motosh_realtime_delta st
                   + 50000 * sum_Z (fst (drift_comp_seq calls st)))
            /\ List.length (fst (drift_comp_seq calls st))
               = List.length calls).
  { revert st Hd. induction calls as [| c calls IH]; intros st Hd.
    - cbn. split; [| reflexivity].
      rewrite Z.add_0_r. symmetry. apply s64_id, Hd.
    - rewrite drift_comp_seq_cons. cbv zeta. cbn [fst snd sum_Z fold_right].
      set (run := motosh_time_drift_comp _ _ _ st).
      assert (Hd1 : motosh_realtime_delta (snd run)
                    = s64 (motosh_realtime_delta st + fst run * 50000))
        by (apply drift_comp_delta, Hd).
      destruct (IH (snd run)) as [IHd IHl].
      { rewrite Hd1. apply s64_range. }
      fold (sum_Z (fst (drift_comp_seq calls (snd run)))).
      split.
      + rewrite IHd, Hd1, s64_add_l. f_equal. lia.
      + cbn [List.length]. rewrite IHl. reflexivity. }
  destruct Hmain as [Hoff Hlen]. split; [exact Hoff | split; [| exact Hlen]].
  intros Hzero. rewrite Hoff, Hzero, Z.mul_0_r, Z.add_0_r.
  apply s64_id, Hd.
Qed.

Lemma drift_comp_seq_offset_witness :
  motosh_realtime_delta
    (snd (drift_comp_seq
            [mkDriftCall 2050000000 2250000000 true;
             mkDriftCall 2050000000 2050000001 false]
            (mkState 50000000 [])))
  = 50000000.
Proof.
  apply (drift_comp_seq_offset
           [mkDriftCall 2050000000 2250000000 true;
            mkDriftCall 2050000000 2050000001 false]
           (mkState 50000000 []));
    [vm_compute; split; discriminate | reflexivity].
Defined.

(** X10: the offset plays no part in the decision, so calls repeated with
    the same arguments all go the way of the first: after [n] of them the
    offset is the offset before plus [n] times the first returned value
    times 50,000, in 64 bits. *)
Theorem drift_comp_repeat_offset (n : nat) (rec_hub cur_time : Z)
    (streaming : bool) (st : state) :
  is_int64 (motosh_realtime_delta st) ->
  let nudged := fst (motosh_time_drift_comp rec_hub cur_time streaming st) in
  motosh_realtime_delta (drift_comp_repeat n rec_hub cur_time streaming st)
  = s64 (motosh_realtime_delta st + Z.of_nat n * nudged * 50000).
Proof.
  intros Hd. cbv zeta. revert st Hd.
  induction n as [| n IH]; intros st Hd.
  - cbn [drift_comp_repeat]. rewrite Z.add_0_r. symmetry. apply s64_id, Hd.
  - cbn [drift_comp_repeat].
    set (st1 := snd (motosh_time_drift_comp rec_hub cur_time streaming st)).
    assert (Hd1 : motosh_realtime_delta st1
                  = s64 (motosh_realtime_delta st
                         + fst (motosh_time_drift_comp rec_hub cur_time
                                  streaming st) * 50000))
      by (apply drift_comp_delta, Hd).
    rewrite IH by (rewrite Hd1; apply s64_range).
    rewrite (drift_comp_direction rec_hub cur_time streaming st1 st).
    rewrite Hd1, s64_add_l. f_equal. lia.
Qed.

Lemma drift_comp_repeat_offset_witness :
  motosh_realtime_delta
    (drift_comp_repeat 3 2050000000 2250000000 true (mkState 50000000 []))
  = s64 (50000000 + 3 * 1 * 50000).
Proof.
  apply (drift_comp_repeat_offset 3 2050000000 2250000000 true
           (mkState 50000000 [])).
  vm_compute. split; discriminate.
Defined.

(** ** Two events recovered at the same time *)

(** X11: the time between two events is kept.  Two hub counters of a whole
    number of ticks, both within the threshold of the estimate, are
    recovered at the same [cur_time] to times that differ by the difference
    of the counters times 1000, so in the order of the counters, also when
    the 28-bit counter rolled over between the two. *)
Theorem recover_keeps_intervals (us1 us2 cur_time : Z) (st : state) :
  let delta := motosh_realtime_delta st in
  us1 mod 16 = 0 ->
  us2 mod 16 = 0 ->
  0 <= us1 * 1000 <= 2 ^ 61 ->
  0 <= us2 * 1000 <= 2 ^ 61 ->
  - 2 ^ 61 <= delta <= 2 ^ 61 ->
  Z.abs (estimate_us delta cur_time - us1) <= 130000000 ->
  Z.abs (estimate_us delta cur_time - us2) <= 130000000 ->
  fst (motosh_time_recover (hubshort_of_us us2) cur_time st)
  - fst (motosh_time_recover (hubshort_of_us us1) cur_time st)
  = (us2 - us1) * 1000.
Proof.
  intros delta Ht1 Ht2 Hus1 Hus2 Hdelta Hc1 Hc2.
  rewrite (recover_hub_time us1 cur_time st Ht1 Hc1).
  rewrite (recover_hub_time us2 cur_time st Ht2 Hc2).
  fold delta.
  rewrite !s64_id by (unfold is_int64, INT64_MIN, INT64_MAX; lia).
  lia.
Qed.

Lemma recover_keeps_intervals_witness :
  fst (motosh_time_recover (hubshort_of_us 268435472) 268436000000 st0)
  - fst (motosh_time_recover (hubshort_of_us 268435440) 268436000000 st0)
  = (268435472 - 268435440) * 1000.
Proof.
  apply (recover_keeps_intervals 268435440 268435472 268436000000 st0);
    cbn [motosh_realtime_delta st0]; try reflexivity; try lia;
    vm_compute; discriminate.
Defined.

(** ** The return value of the transfer *)

(** X12: the value that [motosh_i2c_write_read] returns decides whether the
    error line is printed and nothing else: the offset stored is the one a
    transfer that returned 0 and left the same bytes in [readbuff] would
    have stored, and the calls made are the same but for the error line,
    which is there exactly when the value is negative. *)
Theorem sync_error_only_logged (ts : timespec) (e : Z) (buf : list byte)
    (st : state) :
  let failed := snd (motosh_time_sync ts (mkI2c e buf) st) in
  let clean := snd (motosh_time_sync ts (mkI2c 0 buf) st) in
  motosh_realtime_delta failed = motosh_realtime_delta clean
  /\ filter (fun ev => match ev with DevErr _ => false | _ => true end)
       (trace failed)
     = filter (fun ev => match ev with DevErr _ => false | _ => true end)
         (trace clean)
  /\ (List.length (trace failed)
      = (List.length (trace clean) + if (e <? 0)%Z then 1 else 0)%nat).
Proof.
  cbv zeta. split; [rewrite !sync_delta; reflexivity |].
  unfold motosh_time_sync. run. cbn [err readbuff].
  destruct (motosh_realtime_delta st =? 0), (e <? 0);
    cbn [fst snd motosh_realtime_delta trace Z.ltb Z.compare];
    rewrite ?filter_app, ?length_app; cbn [filter List.length app];
    rewrite ?app_nil_r; split; try reflexivity; lia.
Qed.
